(** * Shallow embedding of [qr_detector/qr_detector.py]

    The module [qr_detector.py] drives OpenCV ([cv2]) through a retry
    pipeline.  OpenCV itself (image codecs, geometric and photometric
    transforms, the QR symbol decoder) is an external collaborator: it is
    modelled as a record [Cv2] of operations, each of which may raise a
    Python exception.  Everything the module itself does (the rotation
    sweep of [QRDetector.decode], the exception wrapping of the public
    readers, the layered fallback and the confirmation counter of
    [QRDetector.scan_qr]) is translated line by line. *)

From Stdlib Require Import List String ZArith Lia Bool Arith.
From Stdlib Require Import Strings.Byte.
Import ListNotations.
Open Scope string_scope.

(** ** Python exceptions and a small exception monad *)

(** Exceptions that reach the module: its own [QRDetectorError] and any
    exception raised by OpenCV, NumPy or the operating system. *)
Inductive exn : Type :=
| QRDetectorError (msg : string)
| ExternalError (msg : string).

(** [str(e)] *)
Definition exn_str (e : exn) : string :=
  match e with
  | QRDetectorError m => m
  | ExternalError m => m
  end.

Inductive res (A : Type) : Type :=
| Ok (a : A)
| Raise (e : exn).
Arguments Ok {A} a.
Arguments Raise {A} e.

Definition bind {A B : Type} (m : res A) (k : A -> res B) : res B :=
  match m with
  | Ok a => k a
  | Raise e => Raise e
  end.

Notation "'let!' x ':=' m 'in' k" := (bind m (fun x => k))
  (at level 200, x name, m at level 100, k at level 200).

(** ** Data model *)

(** An OpenCV image ([np.ndarray]): its shape and an opaque description of
    its pixels.  [img.size] is the number of array elements. *)
Record Frame : Type := mkFrame {
  height : nat;
  width : nat;
  channels : nat;
  pixels : list Z
}.

Definition frame_size (f : Frame) : nat := height f * width f * channels f.

(** [QRResult]: a dataclass holding the raw bytes of one decoded payload.
    The module only ever builds it as [QRResult(data.encode('utf-8'))]
    from a Python [str]; Rocq strings are byte strings, so the UTF-8
    bytes of the decoded text are stored as they are. *)
Record QRResult : Type := mkQRResult { data : string }.

(** [QRResult.decode()]: [data] was produced by [str.encode('utf-8')], so
    decoding it back with UTF-8 always succeeds and gives the same text. *)
Definition QRResult_decode (r : QRResult) : option string := Some (data r).

(** ** The OpenCV collaborator *)

Record Cv2 : Type := mkCv2 {
  (* cv2.getRotationMatrix2D + cv2.warpAffine about the centre, same canvas *)
  warpAffine_rotate : Frame -> Z -> res Frame;
  (* cv2.cvtColor(_, COLOR_BGR2GRAY) *)
  bgr2gray : Frame -> res Frame;
  (* cv2.cvtColor(_, COLOR_GRAY2BGR) *)
  gray2bgr : Frame -> res Frame;
  (* cv2.createCLAHE(clipLimit=2.0, tileGridSize=(8,8)).apply *)
  clahe_apply : Frame -> res Frame;
  (* cv2.medianBlur(_, 3) *)
  medianBlur3 : Frame -> res Frame;
  (* cv2.threshold(_, 0, 255, THRESH_BINARY + THRESH_OTSU)[1] *)
  otsu_threshold : Frame -> res Frame;
  (* cv2.resize(_, (int(w*2.0), int(h*2.0)), INTER_LINEAR) *)
  resize_x2 : Frame -> res Frame;
  (* cv2.detailEnhance(_, sigma_s=10, sigma_r=0.15) *)
  detailEnhance : Frame -> res Frame;
  (* QRCodeDetector.detectAndDecodeMulti(_)[1] : the decoded_info strings *)
  detectAndDecodeMulti : Frame -> res (list string);
  (* os.path.exists *)
  path_exists : string -> res bool;
  (* cv2.imread; None when the file cannot be parsed *)
  imread : string -> res (option Frame);
  (* cv2.imdecode(np.frombuffer(_, np.uint8), IMREAD_COLOR); None on failure *)
  imdecode : list byte -> res (option Frame);
  (* frame[top_left[1]:bottom_right[1], top_left[0]:bottom_right[0]]
     with the centred square of side 70% of min(width, height) *)
  roi_slice : Frame -> Frame
}.

(** ** Messages of the module (translated from Thai) *)

Definition msg_invalid_image : string := "invalid image".
Definition msg_decode_error_prefix : string := "error while decoding: ".
Definition msg_file_not_found (p : string) : string := "file not found: " ++ p.
Definition msg_cannot_read_image_file (p : string) : string :=
  "cannot read image file: " ++ p.
Definition msg_read_file_error_prefix : string := "error while reading file: ".
Definition msg_no_image_data : string := "no image data".
Definition msg_cannot_convert_bytes : string :=
  "cannot convert byte data into an image".
Definition msg_read_bytes_error_prefix : string :=
  "error while reading byte data: ".

Section Detector.

Variable cv : Cv2.

(** ** [QRDetector.preprocess_image(img, scale=2.0)] *)
Definition preprocess_image (img : Frame) : res Frame :=
  let! gray := bgr2gray cv img in
  let! gray := clahe_apply cv gray in
  let! gray := medianBlur3 cv gray in
  let! binary := otsu_threshold cv gray in
  resize_x2 cv binary.

(** ** [QRDetector.rotate_image(img, angle)] *)
Definition rotate_image (img : Frame) (angle : Z) : res Frame :=
  warpAffine_rotate cv img angle.

Definition rotation_angles : list Z := [0; 45; -45; 90; -90]%Z.

(** [results = [QRResult(data.encode('utf-8')) for data in decoded_info if data]] *)
Definition results_of (decoded_info : list string) : list QRResult :=
  map mkQRResult (filter (fun s => negb (String.eqb s "")) decoded_info).

(** One rotation variant: rotate, preprocess, detect, filter. *)
Definition variant_results (img : Frame) (angle : Z) : res (list QRResult) :=
  let! rotated_img := rotate_image img angle in
  let! preprocessed_img := preprocess_image rotated_img in
  let! decoded_info := detectAndDecodeMulti cv preprocessed_img in
  Ok (results_of decoded_info).

(** The [for angle in rotation_angles] loop.  The first component is the
    list of angles whose variant was evaluated, in order (a call log on
    the decoder). *)
Fixpoint decode_loop (img : Frame) (angles : list Z)
    (all_results : list QRResult) : list Z * res (list QRResult) :=
  match angles with
  | [] => ([], Ok all_results)
  | angle :: rest =>
      match variant_results img angle with
      | Raise e => ([angle], Raise e)
      | Ok results =>
          let all_results := (all_results ++ results)%list in
          match results with
          | [] =>
              let (tr, o) := decode_loop img rest all_results in
              (angle :: tr, o)
          | _ :: _ => ([angle], Ok all_results)
          end
      end
  end.

(** [QRDetector.decode(img)]; [None] stands for Python's [None]. *)
Definition decode (img : option Frame) : list Z * res (list QRResult) :=
  let body :=
    match img with
    | None => ([], Raise (QRDetectorError msg_invalid_image))
    | Some f =>
        if Nat.eqb (frame_size f) 0
        then ([], Raise (QRDetectorError msg_invalid_image))
        else decode_loop f rotation_angles []
    end in
  match body with
  | (tr, Raise e) =>
      (tr, Raise (QRDetectorError (msg_decode_error_prefix ++ exn_str e)))
  | ok => ok
  end.

(** [except QRDetectorError: raise / except Exception as e: raise
    QRDetectorError(prefix + str(e))] *)
Definition rewrap {A : Type} (prefix : string) (r : res A) : res A :=
  match r with
  | Raise (QRDetectorError m) => Raise (QRDetectorError m)
  | Raise e => Raise (QRDetectorError (prefix ++ exn_str e))
  | Ok a => Ok a
  end.

(** [QRDetector.read_from_file(file_path)] *)
Definition read_from_file (file_path : string) : res (list QRResult) :=
  rewrap msg_read_file_error_prefix
    (let! ex := path_exists cv file_path in
     if negb ex then Raise (QRDetectorError (msg_file_not_found file_path))
     else
       let! img := imread cv file_path in
       match img with
       | None => Raise (QRDetectorError (msg_cannot_read_image_file file_path))
       | Some f => snd (decode (Some f))
       end).

(** [QRDetector.read_from_bytes(img_bytes)] ([async], without suspension
    points of its own) *)
Definition read_from_bytes (img_bytes : list byte) : res (list QRResult) :=
  rewrap msg_read_bytes_error_prefix
    (match img_bytes with
     | [] => Raise (QRDetectorError msg_no_image_data)
     | _ :: _ =>
         let! img := imdecode cv img_bytes in
         match img with
         | None => Raise (QRDetectorError msg_cannot_convert_bytes)
         | Some f => snd (decode (Some f))
         end
     end).

End Detector.

(** ** [QRDetector.scan_qr]: the live scan loop

    Time is [time.time()] measured in microseconds. *)

Definition scan_interval : Z := 100000.

(** The local variables of [scan_qr] that survive an iteration. *)
Record LiveState : Type := mkLiveState {
  last_scan_time : Z;
  last_detected_qr : option string;
  confirmation_count : nat;
  process_this_frame : bool
}.

(** [last_scan_time = time.time()], [last_detected_qr = None],
    [confirmation_count = 0], [process_this_frame = True] *)
Definition init_state (t0 : Z) : LiveState := mkLiveState t0 None 0 true.

(** The fallback layers of one scan attempt, in the order of the source. *)
Inductive Layer : Type :=
| EnhancedROI
| EnhancedGray3ch
| BinaryROI3ch
| BinaryFull3ch.

(** Python truthiness of [results] ([None] and [[]] are false). *)
Definition truthy (results : option (list QRResult)) : bool :=
  match results with
  | Some (_ :: _) => true
  | _ => false
  end.

Section Live.

Variable cv : Cv2.

(** [try: img = <build>; results = self.decode(img)
     except Exception: pass]: a failure leaves [results] unchanged. *)
Definition try_layer (build : res Frame) (results : option (list QRResult))
    : list Z * option (list QRResult) :=
  match build with
  | Raise _ => ([], results)
  | Ok img =>
      let (tr, o) := decode cv (Some img) in
      (tr, match o with
           | Ok rs => Some rs
           | Raise _ => results
           end)
  end.

(** [results = None] followed by the blocks [if not results: ...].  The
    log records, per decoder call, the layer and the rotation angle. *)
Fixpoint run_layers (layers : list (Layer * res Frame))
    (results : option (list QRResult))
    : list (Layer * Z) * option (list QRResult) :=
  match layers with
  | [] => ([], results)
  | (l, build) :: rest =>
      if truthy results then ([], results)
      else
        let (tr, r1) := try_layer build results in
        let (tr2, r2) := run_layers rest r1 in
        ((map (pair l) tr ++ tr2)%list, r2)
  end.

(** The four images of the source, each built inside its own [try]. *)
Definition live_layers (frame enhanced_roi enhanced_gray binary_roi : Frame)
    : list (Layer * res Frame) :=
  [(EnhancedROI, Ok enhanced_roi);
   (EnhancedGray3ch, gray2bgr cv enhanced_gray);
   (BinaryROI3ch, gray2bgr cv binary_roi);
   (BinaryFull3ch,
     let! gray_full := bgr2gray cv frame in
     let! binary_full := otsu_threshold cv gray_full in
     gray2bgr cv binary_full)].

(** Progress of the confirmation counter after processing results. *)
Inductive Progress : Type :=
| Confirmed (decoded : string)
| Tracking (last_detected_qr : option string) (confirmation_count : nat).

(** [if decoded == last_detected_qr: confirmation_count += 1
     else: last_detected_qr = decoded; confirmation_count = 1] *)
Definition update_candidate (last : option string) (count : nat)
    (decoded : string) : option string * nat :=
  match last with
  | Some l => if String.eqb decoded l then (last, S count) else (Some decoded, 1)
  | None => (Some decoded, 1)
  end.

(** [for result in results: decoded = result.decode(); if decoded: ...
     if confirmation_count >= 3: return decoded] *)
Fixpoint process_results (last : option string) (count : nat)
    (results : list QRResult) : Progress :=
  match results with
  | [] => Tracking last count
  | r :: rest =>
      match QRResult_decode r with
      | Some decoded =>
          if String.eqb decoded "" then process_results last count rest
          else
            let (last', count') := update_candidate last count decoded in
            if Nat.leb 3 count' then Confirmed decoded
            else process_results last' count' rest
      | None => process_results last count rest
      end
  end.

(** The body of the throttled block (the outer [try] of lines 223-320). *)
Definition scan_attempt (frame : Frame) (last : option string) (count : nat)
    : list (Layer * Z) * Progress :=
  let roi := roi_slice cv frame in
  if Nat.ltb 0 (frame_size roi) then
    match (let! enhanced_roi := detailEnhance cv roi in
           let! gray_roi := bgr2gray cv enhanced_roi in
           let! enhanced_gray := clahe_apply cv gray_roi in
           let! binary_roi := otsu_threshold cv enhanced_gray in
           Ok (enhanced_roi, enhanced_gray, binary_roi)) with
    | Raise _ => ([], Tracking last count)
    | Ok (enhanced_roi, enhanced_gray, binary_roi) =>
        let (tr, results) :=
          run_layers (live_layers frame enhanced_roi enhanced_gray binary_roi) None in
        (tr, match results with
             | Some rs => process_results last count rs
             | None => Tracking last count
             end)
    end
  else ([], Tracking last count).

(** What one iteration of [while True] receives: the time read by
    [time.time()], the frame of [cap.read()] ([None] when [ret] is false)
    and whether [cv2.waitKey(1)] reported the key 'q'. *)
Record Input : Type := mkInput {
  in_time : Z;
  in_frame : option Frame;
  in_key_q : bool
}.

Inductive StepOutcome : Type :=
| SConfirmed (decoded : string)
| SStreamError
| SCancelled
| SContinue (st : LiveState).

(** One iteration: whether the throttled block ran, the decoder call log,
    and how the iteration ends. *)
Definition live_step (st : LiveState) (i : Input)
    : bool * list (Layer * Z) * StepOutcome :=
  match in_frame i with
  | None => (false, [], SStreamError)
  | Some frame =>
      let current_time := in_time i in
      let attempt :=
        Z.ltb scan_interval (current_time - last_scan_time st)
        && process_this_frame st in
      let '(tr, prog) :=
        if attempt
        then scan_attempt frame (last_detected_qr st) (confirmation_count st)
        else ([], Tracking (last_detected_qr st) (confirmation_count st)) in
      match prog with
      | Confirmed decoded => (attempt, tr, SConfirmed decoded)
      | Tracking last count =>
          let st' := mkLiveState
                       (if attempt then current_time else last_scan_time st)
                       last count (negb (process_this_frame st)) in
          if in_key_q i then (attempt, tr, SCancelled)
          else (attempt, tr, SContinue st')
      end
  end.

Inductive LiveOutcome : Type :=
| LConfirmed (decoded : string)
| LStreamError
| LCancelled
| LRunning (st : LiveState).

(** The loop over a finite prefix of the camera stream; the number counts
    the iterations in which the throttled block ran. *)
Fixpoint run_live (st : LiveState) (inputs : list Input) : nat * LiveOutcome :=
  match inputs with
  | [] => (0, LRunning st)
  | i :: rest =>
      let '(attempt, _, o) := live_step st i in
      let n := if attempt then 1 else 0 in
      match o with
      | SContinue st' => let (m, fin) := run_live st' rest in (n + m, fin)
      | SConfirmed s => (n, LConfirmed s)
      | SStreamError => (n, LStreamError)
      | SCancelled => (n, LCancelled)
      end
  end.

End Live.

(** ** A concrete OpenCV stand-in for evaluating the embedding

    A demo frame carries two numbers in [pixels]: the content it shows and
    the angle it has been rotated by.  The decoder answers from a table. *)

Definition demo_frame (content : Z) : Frame := mkFrame 4 4 3 [content; 0%Z].

Definition demo_rotate (f : Frame) (a : Z) : res Frame :=
  match pixels f with
  | [c; r] => Ok (mkFrame (height f) (width f) (channels f) [c; (r + a)%Z])
  | _ => Ok f
  end.

Definition demo_table (c r : Z) : res (list string) :=
  match c, r with
  | 1%Z, 0%Z => Ok ["A"]
  | 2%Z, 0%Z => Ok ["B"]
  | 3%Z, 45%Z => Ok [""; "C"]
  | 4%Z, 0%Z => Raise (ExternalError "cv2.error")
  | 4%Z, 45%Z => Ok ["D"]
  | 5%Z, 0%Z => Ok ["A"; "A"; "A"]
  | 6%Z, 45%Z => Ok ["E"]
  | _, _ => Ok []
  end.

Definition demo_detect (f : Frame) : res (list string) :=
  match pixels f with
  | [c; r] => demo_table c r
  | _ => Ok []
  end.

Definition demo_imdecode (b : list byte) : res (option Frame) :=
  match b with
  | x01 :: _ => Ok (Some (demo_frame 1))
  | x02 :: _ => Raise (ExternalError "imdecode failed")
  | _ => Ok None
  end.

Definition demo_cv : Cv2 := {|
  warpAffine_rotate := demo_rotate;
  bgr2gray := Ok;
  gray2bgr := Ok;
  clahe_apply := Ok;
  medianBlur3 := Ok;
  otsu_threshold := Ok;
  resize_x2 := Ok;
  detailEnhance := Ok;
  detectAndDecodeMulti := demo_detect;
  path_exists := fun p => Ok (String.eqb p "qr.png");
  imread := fun p => Ok (Some (demo_frame 1));
  imdecode := demo_imdecode;
  roi_slice := fun f => f
|}.

(** An outcome that, if it is an exception, is a [QRDetectorError]. *)
Definition raises_only_QRDetectorError {A : Type} (r : res A) : Prop :=
  match r with
  | Raise e => exists m, e = QRDetectorError m
  | Ok _ => True
  end.

(** A sequence of detected texts in which each differs from the one
    before it (the first from [last]). *)
Fixpoint alternating (last : option string) (ts : list string) : bool :=
  match ts with
  | [] => true
  | t :: rest =>
      match last with
      | Some l => negb (String.eqb t l)
      | None => true
      end && alternating (Some t) rest
  end.

(** What one fallback layer contributes: its decoder call log and the
    value it assigns to [results] ([None] when it raises). *)
Definition layer_log (cv : Cv2) (layer : Layer * res Frame) : list (Layer * Z) :=
  match snd layer with
  | Raise _ => []
  | Ok img => map (pair (fst layer)) (fst (decode cv (Some img)))
  end.

Definition layer_found (cv : Cv2) (build : res Frame) : option (list QRResult) :=
  match build with
  | Raise _ => None
  | Ok img =>
      match snd (decode cv (Some img)) with
      | Ok rs => Some rs
      | Raise _ => None
      end
  end.

(** A camera stream alternating between a frame showing "A" and a frame
    showing "B", one frame every 200 ms. *)
Definition alternating_stream : list Input :=
  [mkInput 200000 (Some (demo_frame 1)) false;
   mkInput 400000 (Some (demo_frame 2)) false;
   mkInput 600000 (Some (demo_frame 1)) false;
   mkInput 800000 (Some (demo_frame 2)) false;
   mkInput 1000000 (Some (demo_frame 1)) false].

(** Ten frames of the "A" code, one millisecond apart. *)
Definition ten_frames : list Input :=
  map (fun k => mkInput (Z.of_nat k * 1000) (Some (demo_frame 1)) false) (seq 0 10).

(** ** The text-returning readers *)

(** [decoded = list(filter(None, [result.decode() for result in results]))]
    followed by [decoded[0] if decoded else None]. *)
Definition first_text (results : list QRResult) : option string :=
  let decoded :=
    filter (fun o => match o with
                     | Some s => negb (String.eqb s "")
                     | None => false
                     end)
      (map QRResult_decode results) in
  match decoded with
  | o :: _ => o
  | [] => None
  end.

(** [QRDetector.decode_results(img)]: no [try]; errors of [decode]
    propagate. *)
Definition decode_results (cv : Cv2) (img : option Frame) : res (option string) :=
  let! results := snd (decode cv img) in
  Ok (first_text results).

(** [QRDetector.read_from_bytes_decoded(img_bytes)] *)
Definition read_from_bytes_decoded (cv : Cv2) (img_bytes : list byte)
    : res (option string) :=
  let! results := read_from_bytes cv img_bytes in
  Ok (first_text results).

(** The relation [scan_qr] keeps between its candidate and its counter:
    the counter is 0 exactly when there is no candidate, and below 3
    while the loop runs. *)
Definition counter_consistent (last : option string) (count : nat) : Prop :=
  (count = 0 <-> last = None) /\ count < 3.

(** * Properties of the single-shot pipeline *)

Section DecodeFacts.

Variable cv : Cv2.

Lemma decode_valid_frame (img : Frame) :
  frame_size img <> 0 ->
  decode cv (Some img) =
  (fst (decode_loop cv img rotation_angles []),
   match snd (decode_loop cv img rotation_angles []) with
   | Ok rs => Ok rs
   | Raise e => Raise (QRDetectorError (msg_decode_error_prefix ++ exn_str e))
   end).
Proof.
  intros Hsz. unfold decode.
  apply Nat.eqb_neq in Hsz. rewrite Hsz.
  destruct (decode_loop cv img rotation_angles []) as [tr [rs | e]]; reflexivity.
Qed.

(** A variant that fails to decode ends the loop at once. *)
Lemma decode_loop_success_iff (img : Frame) (angles : list Z) (tr : list Z)
    (rs : list QRResult) :
  rs <> [] ->
  decode_loop cv img angles [] = (tr, Ok rs) <->
  exists k, k < List.length angles /\
    (forall j, j < k -> variant_results cv img (nth j angles 0%Z) = Ok []) /\
    variant_results cv img (nth k angles 0%Z) = Ok rs /\
    tr = firstn (S k) angles.
Proof.
  intros Hrs. revert tr. induction angles as [| a rest IH]; intros tr; simpl.
  - split; [intros H; inversion H; subst; contradiction |].
    intros (k & Hk & _). inversion Hk.
  - destruct (variant_results cv img a) as [results | e] eqn:V.
    + destruct results as [| r rs'].
      * case_eq (decode_loop cv img rest []); intros tr' o L. simpl.
        split.
        -- intros H. inversion H; subst.
           destruct (proj1 (IH tr') L) as (k & Hk & Hpre & Hk' & Htr).
           exists (S k). split; [lia |]. split; [| split; [exact Hk' | now subst]].
           intros [| j] Hj; [exact V | apply Hpre; lia].
        -- intros (k & Hk & Hpre & Hk' & Htr).
           destruct k as [| k]; [simpl in Hk'; congruence |].
           assert (Hrec : decode_loop cv img rest [] = (firstn (S k) rest, Ok rs)).
           { apply IH. exists k. split; [lia |]. split; [| split; [exact Hk' | reflexivity]].
             intros j Hj. apply (Hpre (S j)). lia. }
           rewrite L in Hrec. inversion Hrec; subst. reflexivity.
      * split.
        -- intros H. inversion H; subst. exists 0. simpl.
           split; [lia |]. split; [intros j Hj; lia |]. split; [exact V | reflexivity].
        -- intros (k & Hk & Hpre & Hk' & Htr).
           destruct k as [| k].
           ++ simpl in Hk', Htr. rewrite V in Hk'. inversion Hk'; subst. reflexivity.
           ++ specialize (Hpre 0 ltac:(lia)). simpl in Hpre. congruence.
    + split.
      * intros H. inversion H.
      * intros (k & Hk & Hpre & Hk' & Htr).
        destruct k as [| k]; [simpl in Hk'; congruence |].
        specialize (Hpre 0 ltac:(lia)). simpl in Hpre. congruence.
Qed.

Lemma decode_loop_all_empty (img : Frame) (angles : list Z) :
  (forall a, In a angles -> variant_results cv img a = Ok []) ->
  decode_loop cv img angles [] = (angles, Ok []).
Proof.
  induction angles as [| a rest IH]; intros Hall; simpl; [reflexivity |].
  rewrite (Hall a (or_introl eq_refl)). simpl.
  rewrite IH; [reflexivity |].
  intros b Hb. apply Hall. now right.
Qed.

Lemma decode_loop_failure (img : Frame) (angles : list Z) (k : nat) (e : exn) :
  k < List.length angles ->
  (forall j, j < k -> variant_results cv img (nth j angles 0%Z) = Ok []) ->
  variant_results cv img (nth k angles 0%Z) = Raise e ->
  decode_loop cv img angles [] = (firstn (S k) angles, Raise e).
Proof.
  revert k. induction angles as [| a rest IH]; intros k Hk Hpre Hfail; simpl in *; [lia |].
  destruct k as [| k].
  - rewrite Hfail. reflexivity.
  - rewrite (Hpre 0 ltac:(lia)). simpl.
    rewrite (IH k); [reflexivity | lia | | exact Hfail].
    intros j Hj. apply (Hpre (S j)). lia.
Qed.

Lemma results_of_nonempty (info : list string) :
  Forall (fun r => data r <> "") (results_of info).
Proof.
  unfold results_of. induction info as [| s rest IH]; simpl; [constructor |].
  destruct (String.eqb s "") eqn:E; simpl; [exact IH |].
  constructor; [| exact IH]. simpl. apply String.eqb_neq. exact E.
Qed.

Lemma decode_loop_nonempty (img : Frame) (angles : list Z) (acc : list QRResult) :
  Forall (fun r => data r <> "") acc ->
  match snd (decode_loop cv img angles acc) with
  | Ok rs => Forall (fun r => data r <> "") rs
  | Raise _ => True
  end.
Proof.
  revert acc. induction angles as [| a rest IH]; intros acc Hacc; simpl; [exact Hacc |].
  destruct (variant_results cv img a) as [results | e] eqn:V; simpl; [| exact I].
  assert (Hres : Forall (fun r => data r <> "") results).
  { unfold variant_results in V.
    destruct (rotate_image cv img a); simpl in V; [| discriminate].
    destruct (preprocess_image cv a0); simpl in V; [| discriminate].
    destruct (detectAndDecodeMulti cv a1); simpl in V; [| discriminate].
    inversion V; subst. apply results_of_nonempty. }
  destruct results as [| r rs'].
  - rewrite app_nil_r. destruct (decode_loop cv img rest acc) as [tr o] eqn:L.
    simpl. specialize (IH acc Hacc). rewrite L in IH. exact IH.
  - simpl. apply Forall_app. split; assumption.
Qed.

End DecodeFacts.

(** * The claims *)

(** ** Single-shot decode *)

(** C1: on a valid frame, [decode] evaluates the rotation variants in the
    order [0, 45, -45, 90, -90] and stops at the first one whose filtered
    payload list is non-empty: it returns a non-empty list exactly when
    some variant [k] yields it after variants [0..k-1] yielded nothing, the
    angles evaluated being the first [k+1] of the order, and the list being
    the payloads of variant [k] alone. *)
Theorem decode_first_success_only (cv : Cv2) (img : Frame) (tr : list Z)
    (rs : list QRResult) :
  frame_size img <> 0 ->
  rs <> [] ->
  decode cv (Some img) = (tr, Ok rs) <->
  exists k, k < 5 /\
    (forall j, j < k -> variant_results cv img (nth j rotation_angles 0%Z) = Ok []) /\
    variant_results cv img (nth k rotation_angles 0%Z) = Ok rs /\
    tr = firstn (S k) rotation_angles.
Proof.
  intros Hsz Hrs.
  rewrite (decode_valid_frame cv img Hsz).
  rewrite <- (decode_loop_success_iff cv img rotation_angles tr rs Hrs).
  destruct (decode_loop cv img rotation_angles []) as [tr' [r | e]]; simpl;
    split; intros H; inversion H; subst; reflexivity.
Qed.

Lemma decode_first_success_only_witness :
  frame_size (demo_frame 3) <> 0 /\ [mkQRResult "C"] <> [] /\
  (decode demo_cv (Some (demo_frame 3)) = ([0; 45]%Z, Ok [mkQRResult "C"]) <->
   exists k, k < 5 /\
     (forall j, j < k ->
        variant_results demo_cv (demo_frame 3) (nth j rotation_angles 0%Z) = Ok []) /\
     variant_results demo_cv (demo_frame 3) (nth k rotation_angles 0%Z) =
       Ok [mkQRResult "C"] /\
     [0; 45]%Z = firstn (S k) rotation_angles).
Proof.
  split; [simpl; discriminate |]. split; [discriminate |].
  apply decode_first_success_only; [simpl; discriminate | discriminate].
Defined.

(** C2 (counterexample): the decoder raising on the 0 degree variant of a
    frame whose 45 degree variant decodes to "D" aborts the whole scan:
    only the angle 0 is evaluated and [decode] raises. *)
Example decode_failure_aborts_sweep :
  variant_results demo_cv (demo_frame 4) 0%Z = Raise (ExternalError "cv2.error") /\
  variant_results demo_cv (demo_frame 4) 45%Z = Ok [mkQRResult "D"] /\
  decode demo_cv (Some (demo_frame 4)) =
    ([0%Z], Raise (QRDetectorError "error while decoding: cv2.error")).
Proof. split; [| split]; reflexivity. Qed.

(** C2 (amended): a failure of any rotation variant (rotation,
    preprocessing or the decoder) ends the single-shot scan: no later
    variant is evaluated and [decode] raises a [QRDetectorError] whose
    message wraps the failure's. *)
Theorem decode_variant_failure_aborts (cv : Cv2) (img : Frame) (k : nat) (e : exn) :
  frame_size img <> 0 ->
  k < 5 ->
  (forall j, j < k -> variant_results cv img (nth j rotation_angles 0%Z) = Ok []) ->
  variant_results cv img (nth k rotation_angles 0%Z) = Raise e ->
  decode cv (Some img) =
  (firstn (S k) rotation_angles,
   Raise (QRDetectorError (msg_decode_error_prefix ++ exn_str e))).
Proof.
  intros Hsz Hk Hpre Hfail.
  rewrite (decode_valid_frame cv img Hsz).
  rewrite (decode_loop_failure cv img rotation_angles k e Hk Hpre Hfail).
  reflexivity.
Qed.

Lemma decode_variant_failure_aborts_witness :
  frame_size (demo_frame 4) <> 0 /\ 0 < 5 /\
  variant_results demo_cv (demo_frame 4) (nth 0 rotation_angles 0%Z) =
    Raise (ExternalError "cv2.error") /\
  decode demo_cv (Some (demo_frame 4)) =
  (firstn 1 rotation_angles,
   Raise (QRDetectorError (msg_decode_error_prefix ++ exn_str (ExternalError "cv2.error")))).
Proof.
  split; [simpl; discriminate |]. split; [lia |]. split; [reflexivity |].
  apply (decode_variant_failure_aborts demo_cv (demo_frame 4) 0
           (ExternalError "cv2.error")).
  - simpl; discriminate.
  - lia.
  - intros j Hj. lia.
  - reflexivity.
Defined.

(** C7: on a valid frame none of whose five rotation variants yields a
    payload, [decode] evaluates all five angles and returns the empty
    list without raising. *)
Theorem decode_no_qr_empty (cv : Cv2) (img : Frame) :
  frame_size img <> 0 ->
  Forall (fun a => variant_results cv img a = Ok []) rotation_angles ->
  decode cv (Some img) = (rotation_angles, Ok []).
Proof.
  intros Hsz Hall.
  rewrite (decode_valid_frame cv img Hsz).
  rewrite decode_loop_all_empty; [reflexivity |].
  intros a Ha. rewrite Forall_forall in Hall. exact (Hall a Ha).
Qed.

Lemma decode_no_qr_empty_witness :
  frame_size (demo_frame 0) <> 0 /\
  Forall (fun a => variant_results demo_cv (demo_frame 0) a = Ok []) rotation_angles /\
  decode demo_cv (Some (demo_frame 0)) = (rotation_angles, Ok []).
Proof.
  assert (H : Forall (fun a => variant_results demo_cv (demo_frame 0) a = Ok [])
                rotation_angles) by (repeat constructor).
  split; [simpl; discriminate |]. split; [exact H |].
  apply decode_no_qr_empty; [simpl; discriminate | exact H].
Defined.

(** C9: every payload returned by [decode] carries a non-empty string. *)
Theorem decode_payloads_nonempty (cv : Cv2) (img : option Frame) :
  match snd (decode cv img) with
  | Ok rs => Forall (fun r => data r <> "") rs
  | Raise _ => True
  end.
Proof.
  destruct img as [f |]; [| exact I].
  destruct (Nat.eqb (frame_size f) 0) eqn:E.
  - unfold decode. rewrite E. exact I.
  - rewrite (decode_valid_frame cv f (proj1 (Nat.eqb_neq _ _) E)).
    pose proof (decode_loop_nonempty cv f rotation_angles [] (Forall_nil _)) as H.
    destruct (decode_loop cv f rotation_angles []) as [tr [rs | e]];
      [exact H | exact I].
Qed.

(** ** Readers and error wrapping *)

(** C6: [read_from_bytes] raises the empty-input error (a
    [QRDetectorError] with the message "no image data") on the empty
    buffer, raises the undecodable-image error (message "cannot convert
    byte data into an image") when the codec returns no frame, and
    otherwise returns exactly what [decode] returns on the decoded frame. *)
Theorem read_from_bytes_cases (cv : Cv2) :
  read_from_bytes cv [] = Raise (QRDetectorError msg_no_image_data) /\
  (forall b, b <> [] -> imdecode cv b = Ok None ->
     read_from_bytes cv b = Raise (QRDetectorError msg_cannot_convert_bytes)) /\
  (forall b f, b <> [] -> imdecode cv b = Ok (Some f) ->
     read_from_bytes cv b = snd (decode cv (Some f))).
Proof.
  split; [reflexivity |]. split.
  - intros [| x b] Hb Hdec; [contradiction |].
    unfold read_from_bytes. simpl. rewrite Hdec. reflexivity.
  - intros [| x b] f Hb Hdec; [contradiction |].
    unfold read_from_bytes. simpl. rewrite Hdec. simpl.
    unfold decode.
    destruct (Nat.eqb (frame_size f) 0); [reflexivity |].
    destruct (decode_loop cv f rotation_angles []) as [tr [rs | e]]; reflexivity.
Qed.

Lemma read_from_bytes_cases_witness :
  [x01] <> [] /\ imdecode demo_cv [x01] = Ok (Some (demo_frame 1)) /\
  read_from_bytes demo_cv [x01] = snd (decode demo_cv (Some (demo_frame 1))).
Proof.
  split; [discriminate |]. split; [reflexivity |].
  apply (proj2 (proj2 (read_from_bytes_cases demo_cv))); [discriminate | reflexivity].
Defined.

(** C10: every exception that leaves [decode], [read_from_file] or
    [read_from_bytes] is a [QRDetectorError]; the kinds of failure differ
    only by message, e.g. an empty buffer and an unparsable one. *)
Theorem public_errors_are_QRDetectorError (cv : Cv2) :
  (forall img, raises_only_QRDetectorError (snd (decode cv img))) /\
  (forall p, raises_only_QRDetectorError (read_from_file cv p)) /\
  (forall b, raises_only_QRDetectorError (read_from_bytes cv b)) /\
  String.eqb msg_no_image_data msg_cannot_convert_bytes = false.
Proof.
  split; [| split; [| split]].
  - intros img. unfold decode.
    destruct (match img with
              | Some f => _
              | None => _
              end) as [tr [rs | e]]; simpl; [exact I | eexists; reflexivity].
  - intros p. unfold read_from_file, rewrap.
    destruct (bind _ _) as [rs | [m | m]]; simpl;
      [exact I | eexists; reflexivity | eexists; reflexivity].
  - intros b. unfold read_from_bytes, rewrap.
    destruct (match b with
              | [] => _
              | _ :: _ => _
              end) as [rs | [m | m]]; simpl;
      [exact I | eexists; reflexivity | eexists; reflexivity].
  - reflexivity.
Qed.

(** * Properties of the live scan loop *)

Section LiveFacts.

Variable cv : Cv2.

Lemma process_results_app (l : option string) (c : nat) (xs ys : list QRResult) :
  process_results l c (xs ++ ys) =
  match process_results l c xs with
  | Confirmed t => Confirmed t
  | Tracking l' c' => process_results l' c' ys
  end.
Proof.
  revert l c. induction xs as [| r xs IH]; intros l c;
    cbn [process_results app QRResult_decode]; [reflexivity |].
  destruct (String.eqb (data r) ""); [apply IH |].
  destruct (update_candidate l c (data r)) as [l' c'].
  destruct (Nat.leb 3 c'); [reflexivity | apply IH].
Qed.

Lemma process_results_bound (l : option string) (c : nat) (rs : list QRResult)
    (l' : option string) (c' : nat) :
  c < 3 -> process_results l c rs = Tracking l' c' -> c' < 3.
Proof.
  revert l c. induction rs as [| r rs IH]; intros l c Hc H;
    cbn [process_results QRResult_decode] in H.
  - inversion H; subst. exact Hc.
  - destruct (String.eqb (data r) ""); [exact (IH l c Hc H) |].
    destruct (update_candidate l c (data r)) as [l1 c1].
    destruct (Nat.leb 3 c1) eqn:E; [discriminate |].
    apply Nat.leb_gt in E. exact (IH l1 c1 E H).
Qed.

Lemma process_results_alternating (ts : list string) (l : option string) (c : nat) :
  c < 3 ->
  Forall (fun t => t <> "") ts ->
  alternating l ts = true ->
  exists l' c', process_results l c (map mkQRResult ts) = Tracking l' c' /\ c' < 3.
Proof.
  revert l c. induction ts as [| t rest IH]; intros l c Hc Hne Halt; simpl.
  - exists l, c. split; [reflexivity | exact Hc].
  - inversion Hne as [| ? ? Ht Hrest]; subst.
    apply andb_prop in Halt as [Hhd Htl].
    apply String.eqb_neq in Ht. rewrite Ht.
    assert (U : update_candidate l c t = (Some t, 1)).
    { destruct l as [x |]; simpl in *; [| reflexivity].
      apply negb_true_iff in Hhd. rewrite Hhd. reflexivity. }
    rewrite U. simpl. apply IH; [lia | exact Hrest | exact Htl].
Qed.

Lemma live_step_facts (st : LiveState) (i : Input) :
  let '(attempt, tr, o) := live_step cv st i in
  (attempt = true ->
     (scan_interval < in_time i - last_scan_time st)%Z /\
     process_this_frame st = true) /\
  (attempt = false -> tr = []) /\
  (forall st', o = SContinue st' ->
     last_scan_time st' = (if attempt then in_time i else last_scan_time st) /\
     process_this_frame st' = negb (process_this_frame st)).
Proof.
  unfold live_step. destruct (in_frame i) as [frame |].
  - destruct (Z.ltb scan_interval (in_time i - last_scan_time st)
              && process_this_frame st) eqn:A.
    + apply andb_prop in A as [A1 A2]. apply Z.ltb_lt in A1.
      destruct (scan_attempt cv frame (last_detected_qr st) (confirmation_count st))
        as [tr [d | l c]].
      * split; [intros _; split; assumption |].
        split; [discriminate | intros st' H; discriminate].
      * destruct (in_key_q i).
        -- split; [intros _; split; assumption |].
           split; [discriminate | intros st' H; discriminate].
        -- split; [intros _; split; assumption |].
           split; [discriminate |].
           intros st' H. inversion H; subst. simpl. split; reflexivity.
    + destruct (in_key_q i).
      * split; [discriminate |]. split; [reflexivity | intros st' H; discriminate].
      * split; [discriminate |]. split; [reflexivity |].
        intros st' H. inversion H; subst. simpl. split; reflexivity.
  - split; [discriminate |]. split; [reflexivity | intros st' H; discriminate].
Qed.

Lemma run_live_no_attempt (st : LiveState) (inputs : list Input) :
  (forall i, In i inputs -> (in_time i - last_scan_time st <= scan_interval)%Z) ->
  fst (run_live cv st inputs) = 0.
Proof.
  revert st. induction inputs as [| i rest IH]; intros st H; simpl; [reflexivity |].
  pose proof (live_step_facts st i) as F.
  destruct (live_step cv st i) as [[att tr] o].
  destruct F as (F1 & F2 & F3).
  destruct att.
  - exfalso. destruct (F1 eq_refl) as [Hlt _].
    specialize (H i (or_introl eq_refl)). lia.
  - destruct o as [d | | | st']; try reflexivity.
    destruct (F3 st' eq_refl) as [Hl _].
    assert (R : fst (run_live cv st' rest) = 0).
    { apply IH. intros j Hj. rewrite Hl. apply H. now right. }
    destruct (run_live cv st' rest) as [m fin]. simpl in *. exact R.
Qed.

Lemma run_live_window (st : LiveState) (inputs : list Input) :
  (forall i j, In i inputs -> In j inputs ->
     (in_time j - in_time i < scan_interval)%Z) ->
  fst (run_live cv st inputs) <= 1.
Proof.
  revert st. induction inputs as [| i rest IH]; intros st H; simpl; [lia |].
  pose proof (live_step_facts st i) as F.
  destruct (live_step cv st i) as [[att tr] o].
  destruct F as (F1 & F2 & F3).
  destruct o as [d | | | st']; try (destruct att; simpl; lia).
  destruct (F3 st' eq_refl) as [Hl _].
  destruct att.
  - assert (R : fst (run_live cv st' rest) = 0).
    { apply run_live_no_attempt. intros j Hj. rewrite Hl.
      specialize (H i j (or_introl eq_refl) (or_intror Hj)). lia. }
    destruct (run_live cv st' rest) as [m fin]. simpl in *. lia.
  - assert (R : fst (run_live cv st' rest) <= 1).
    { apply IH. intros a b Ha Hb. apply H; now right. }
    destruct (run_live cv st' rest) as [m fin]. simpl in *. lia.
Qed.

Lemma run_layers_truthy (layers : list (Layer * res Frame)) (r : option (list QRResult)) :
  truthy r = true -> run_layers cv layers r = ([], r).
Proof.
  intros H. destruct layers as [| [l b] rest]; simpl; [reflexivity |].
  rewrite H. reflexivity.
Qed.

Lemma try_layer_log (l : Layer) (b : res Frame) (r : option (list QRResult)) :
  map (pair l) (fst (try_layer cv b r)) = layer_log cv (l, b).
Proof.
  unfold try_layer, layer_log. simpl. destruct b as [img | e]; [| reflexivity].
  destruct (decode cv (Some img)) as [tr o]. reflexivity.
Qed.

Lemma try_layer_nothing (b : res Frame) (r : option (list QRResult)) :
  truthy r = false -> truthy (layer_found cv b) = false ->
  truthy (snd (try_layer cv b r)) = false.
Proof.
  unfold try_layer, layer_found. intros Hr Hb.
  destruct b as [img | e]; [| exact Hr].
  destruct (decode cv (Some img)) as [tr [rs | e]]; simpl in *; assumption.
Qed.

Lemma try_layer_found (b : res Frame) (r : option (list QRResult)) (rs : list QRResult) :
  layer_found cv b = Some rs -> snd (try_layer cv b r) = Some rs.
Proof.
  unfold try_layer, layer_found. intros Hb.
  destruct b as [img | e]; [| discriminate].
  destruct (decode cv (Some img)) as [tr [rs' | e]]; simpl in *; congruence.
Qed.

Lemma run_layers_first_found (pre post : list (Layer * res Frame)) (l : Layer)
    (b : res Frame) (rs : list QRResult) (r : option (list QRResult)) :
  truthy r = false ->
  Forall (fun x => truthy (layer_found cv (snd x)) = false) pre ->
  layer_found cv b = Some rs -> rs <> [] ->
  run_layers cv (pre ++ (l, b) :: post) r =
  (flat_map (layer_log cv) (pre ++ [(l, b)]), Some rs).
Proof.
  intros Hr Hpre Hb Hrs. revert r Hr.
  induction Hpre as [| [l0 b0] pre Hx Hpre IH]; intros r Hr; simpl.
  - rewrite Hr. pose proof (try_layer_log l b r) as Hlog.
    pose proof (try_layer_found b r rs Hb) as Hf.
    destruct (try_layer cv b r) as [tr r1]. simpl in *. subst r1.
    rewrite run_layers_truthy; [| destruct rs; [contradiction | reflexivity]].
    rewrite Hlog. rewrite !app_nil_r. reflexivity.
  - rewrite Hr. pose proof (try_layer_log l0 b0 r) as Hlog.
    pose proof (try_layer_nothing b0 r Hr Hx) as Hn.
    destruct (try_layer cv b0 r) as [tr r1]. simpl in *.
    rewrite (IH r1 Hn). rewrite Hlog. reflexivity.
Qed.

End LiveFacts.

(** ** Live scan *)

(** C3 (counterexample): the camera stream alternates between a frame
    showing "A" and a frame showing "B"; frames are 200 ms apart, so the
    interval never blocks, but the alternation flag skips every "B" frame
    and the counter sees "A" three times: the loop confirms "A". *)
Example live_alternating_stream_confirms :
  snd (decode demo_cv (Some (demo_frame 1))) = Ok [mkQRResult "A"] /\
  snd (decode demo_cv (Some (demo_frame 2))) = Ok [mkQRResult "B"] /\
  run_live demo_cv (init_state 0) alternating_stream = (3, LConfirmed "A").
Proof. split; [| split]; vm_compute; reflexivity. Qed.

(** C3 (amended): a detected text equal to the tracked candidate increments
    the counter, a different one replaces it and resets the counter to 1;
    the counter of a running scan stays below 3, so the scan confirms
    exactly when it reaches 3 (after three equal texts from the start); and
    a sequence of texts reaching the counter in which each differs from the
    previous one never confirms. *)
Theorem live_counter_rules :
  (forall count t, update_candidate (Some t) count t = (Some t, S count)) /\
  (forall last count t, last <> Some t -> update_candidate last count t = (Some t, 1)) /\
  (forall last count rs last' count',
     count < 3 -> process_results last count rs = Tracking last' count' -> count' < 3) /\
  (forall a, a <> "" ->
     process_results None 0 [mkQRResult a; mkQRResult a] = Tracking (Some a) 2 /\
     process_results None 0 [mkQRResult a; mkQRResult a; mkQRResult a] = Confirmed a) /\
  (forall last count ts, count < 3 -> Forall (fun t => t <> "") ts ->
     alternating last ts = true ->
     exists last' count', process_results last count (map mkQRResult ts) =
                          Tracking last' count').
Proof.
  split; [| split; [| split; [| split]]].
  - intros count t. simpl. rewrite String.eqb_refl. reflexivity.
  - intros [l |] count t H; simpl; [| reflexivity].
    destruct (String.eqb t l) eqn:E; [| reflexivity].
    apply String.eqb_eq in E. subst. contradiction.
  - exact process_results_bound.
  - intros a Ha. apply String.eqb_neq in Ha. simpl.
    rewrite Ha, String.eqb_refl. simpl. rewrite String.eqb_refl. split; reflexivity.
  - intros last count ts Hc Hne Halt.
    destruct (process_results_alternating ts last count Hc Hne Halt) as (l' & c' & H & _).
    exists l', c'. exact H.
Qed.

Lemma live_counter_rules_witness :
  Some "A" <> Some "B" /\ update_candidate (Some "A") 2 "B" = (Some "B", 1) /\
  ("A" <> "" /\
   process_results None 0 [mkQRResult "A"; mkQRResult "A"; mkQRResult "A"] =
     Confirmed "A") /\
  (1 < 3 /\ Forall (fun t => t <> "") ["B"; "A"; "B"] /\
   alternating (Some "A") ["B"; "A"; "B"] = true /\
   exists last' count', process_results (Some "A") 1 (map mkQRResult ["B"; "A"; "B"]) =
                        Tracking last' count').
Proof.
  destruct live_counter_rules as (_ & H2 & _ & H4 & H5).
  split; [discriminate |]. split; [apply H2; discriminate |].
  split; [split; [discriminate | apply (H4 "A"); discriminate] |].
  assert (Hne : Forall (fun t => t <> "") ["B"; "A"; "B"])
    by (repeat constructor; discriminate).
  split; [lia |]. split; [exact Hne |]. split; [reflexivity |].
  apply H5; [lia | exact Hne | reflexivity].
Defined.

(** C4 (counterexample): the first layer (the enhanced ROI) of a frame
    that decodes only when rotated by 45 degrees is decoded at 0 and then
    at 45 degrees: live mode runs the rotation sweep inside the layer. *)
Example live_layer_rotation_sweep :
  scan_attempt demo_cv (demo_frame 6) None 0 =
  ([(EnhancedROI, 0%Z); (EnhancedROI, 45%Z)], Tracking (Some "E") 1).
Proof. vm_compute. reflexivity. Qed.

(** C4 (amended): the layers of a scan attempt come in the order enhanced
    ROI, enhanced gray ROI, binary ROI, full-frame binary; the attempt stops
    at the first layer whose decode yields a non-empty result set (a layer
    whose construction or decode raises counts as empty) and returns that
    set, the decoder having been called for the earlier layers and that one
    only; each layer is decoded with [decode], so a layer that yields nothing
    is tried at all five rotation angles. *)
Theorem live_layers_order_and_sweep (cv : Cv2) :
  (forall frame e g b,
     map fst (live_layers cv frame e g b) =
     [EnhancedROI; EnhancedGray3ch; BinaryROI3ch; BinaryFull3ch]) /\
  (forall frame e g b pre l bl post rs,
     live_layers cv frame e g b = (pre ++ (l, bl) :: post)%list ->
     Forall (fun x => truthy (layer_found cv (snd x)) = false) pre ->
     layer_found cv bl = Some rs -> rs <> [] ->
     run_layers cv (live_layers cv frame e g b) None =
     (flat_map (layer_log cv) (pre ++ [(l, bl)])%list, Some rs)) /\
  (forall l img, frame_size img <> 0 ->
     Forall (fun a => variant_results cv img a = Ok []) rotation_angles ->
     layer_log cv (l, Ok img) = map (pair l) rotation_angles).
Proof.
  split; [| split].
  - intros. reflexivity.
  - intros frame e g b pre l bl post rs Hl Hpre Hbl Hrs. rewrite Hl.
    apply run_layers_first_found; [reflexivity | exact Hpre | exact Hbl | exact Hrs].
  - intros l img Hsz Hall. unfold layer_log. simpl.
    rewrite (decode_no_qr_empty cv img Hsz Hall). reflexivity.
Qed.

Lemma live_layers_order_and_sweep_witness :
  live_layers demo_cv (demo_frame 6) (demo_frame 6) (demo_frame 6) (demo_frame 6) =
    ([] ++ (EnhancedROI, Ok (demo_frame 6)) ::
      tl (live_layers demo_cv (demo_frame 6) (demo_frame 6) (demo_frame 6) (demo_frame 6)))%list /\
  layer_found demo_cv (Ok (demo_frame 6)) = Some [mkQRResult "E"] /\
  run_layers demo_cv
    (live_layers demo_cv (demo_frame 6) (demo_frame 6) (demo_frame 6) (demo_frame 6)) None =
  (flat_map (layer_log demo_cv) [(EnhancedROI, Ok (demo_frame 6))], Some [mkQRResult "E"]).
Proof.
  destruct (live_layers_order_and_sweep demo_cv) as (_ & H & _).
  split; [reflexivity |]. split; [vm_compute; reflexivity |].
  apply (H (demo_frame 6) (demo_frame 6) (demo_frame 6) (demo_frame 6) []
           EnhancedROI (Ok (demo_frame 6))
           (tl (live_layers demo_cv (demo_frame 6) (demo_frame 6) (demo_frame 6)
                  (demo_frame 6)))
           [mkQRResult "E"]);
    [reflexivity | constructor | vm_compute; reflexivity | discriminate].
Defined.

(** C5: an iteration enters the throttled block only when more than the
    scan interval has passed since the last attempt and the alternation
    flag is set; no decoder call happens in an iteration that does not
    enter it; the flag is flipped by every iteration that continues; and
    over any run of frames whose times all lie within less than the scan
    interval of each other, at most one attempt is made. *)
Theorem live_throttling (cv : Cv2) :
  (forall st i, fst (fst (live_step cv st i)) = true ->
     (scan_interval < in_time i - last_scan_time st)%Z /\ process_this_frame st = true) /\
  (forall st i, fst (fst (live_step cv st i)) = false -> snd (fst (live_step cv st i)) = []) /\
  (forall st i st', snd (live_step cv st i) = SContinue st' ->
     process_this_frame st' = negb (process_this_frame st)) /\
  (forall st inputs,
     (forall i j, In i inputs -> In j inputs -> (in_time j - in_time i < scan_interval)%Z) ->
     fst (run_live cv st inputs) <= 1).
Proof.
  split; [| split; [| split]].
  - intros st i. pose proof (live_step_facts cv st i) as F.
    destruct (live_step cv st i) as [[a tr] o]. simpl. exact (proj1 F).
  - intros st i. pose proof (live_step_facts cv st i) as F.
    destruct (live_step cv st i) as [[a tr] o]. simpl. exact (proj1 (proj2 F)).
  - intros st i st'. pose proof (live_step_facts cv st i) as F.
    destruct (live_step cv st i) as [[a tr] o]. simpl. intros H.
    exact (proj2 (proj2 (proj2 F) st' H)).
  - exact (run_live_window cv).
Qed.

Lemma live_throttling_witness :
  (forall i j, In i ten_frames -> In j ten_frames ->
     (in_time j - in_time i < scan_interval)%Z) /\
  fst (run_live demo_cv (init_state (-200000)) ten_frames) <= 1.
Proof.
  assert (H : forall i j, In i ten_frames -> In j ten_frames ->
                (in_time j - in_time i < scan_interval)%Z).
  { intros i j Hi Hj. unfold ten_frames in Hi, Hj.
    apply in_map_iff in Hi as (a & <- & Ha). apply in_map_iff in Hj as (b & <- & Hb).
    apply in_seq in Ha. apply in_seq in Hb. unfold scan_interval. simpl. lia. }
  split; [exact H |].
  apply (proj2 (proj2 (proj2 (live_throttling demo_cv))) (init_state (-200000)) ten_frames H).
Defined.

(** C8 (counterexample): every payload of the result set updates the
    counter, not only the first: the set ["A"; "B"] leaves "B" tracked,
    and a frame decoding to ["A"; "A"; "A"] is confirmed in one attempt. *)
Example live_attempt_uses_every_payload :
  process_results None 0 [mkQRResult "A"; mkQRResult "B"] = Tracking (Some "B") 1 /\
  scan_attempt demo_cv (demo_frame 5) None 0 = ([(EnhancedROI, 0%Z)], Confirmed "A").
Proof. split; vm_compute; reflexivity. Qed.

(** C8 (amended): the payloads of a non-empty result set are fed to the
    counter one after the other, in order: a payload with a non-empty text
    updates the candidate and counter and the rest of the set is processed
    from the new state, a payload with an empty text is skipped, and three
    equal payloads in one set confirm that text from any state. *)
Theorem live_attempt_feeds_all_payloads :
  (forall last count t rest, t <> "" ->
     process_results last count (mkQRResult t :: rest) =
     match process_results last count [mkQRResult t] with
     | Confirmed s => Confirmed s
     | Tracking last' count' => process_results last' count' rest
     end) /\
  (forall last count r rest, data r = "" ->
     process_results last count (r :: rest) = process_results last count rest) /\
  (forall last count a, a <> "" ->
     process_results last count [mkQRResult a; mkQRResult a; mkQRResult a] = Confirmed a).
Proof.
  split; [| split].
  - intros last count t rest _.
    exact (process_results_app last count [mkQRResult t] rest).
  - intros last count r rest H. cbn [process_results QRResult_decode].
    rewrite H. reflexivity.
  - intros last count a Ha. apply String.eqb_neq in Ha.
    destruct last as [l |];
      [destruct (String.eqb a l) eqn:E; [apply String.eqb_eq in E; subst l |] |];
      [destruct count as [| [| c]] | |];
      repeat (progress (simpl; rewrite ?Ha, ?E, ?String.eqb_refl)); reflexivity.
Qed.

Lemma live_attempt_feeds_all_payloads_witness :
  "A" <> "" /\
  process_results (Some "B") 2 [mkQRResult "A"; mkQRResult "A"; mkQRResult "A"] =
    Confirmed "A".
Proof.
  split; [discriminate |].
  apply (proj2 (proj2 live_attempt_feeds_all_payloads)); discriminate.
Defined.

(** * Further properties of the module *)

(** ** Single-shot readers *)

Lemma decode_outcome_nonempty (cv : Cv2) (img : option Frame) (rs : list QRResult) :
  snd (decode cv img) = Ok rs -> Forall (fun r => data r <> "") rs.
Proof.
  destruct img as [f |]; [| discriminate].
  destruct (Nat.eqb (frame_size f) 0) eqn:E.
  - unfold decode. rewrite E. discriminate.
  - rewrite (decode_valid_frame cv f (proj1 (Nat.eqb_neq _ _) E)).
    pose proof (decode_loop_nonempty cv f rotation_angles [] (Forall_nil _)) as H.
    destruct (decode_loop cv f rotation_angles []) as [tr [rs' | e]];
      simpl; intros Heq; [inversion Heq; subst; exact H | discriminate].
Qed.

Lemma first_text_nonempty (rs : list QRResult) :
  Forall (fun r => data r <> "") rs ->
  first_text rs = match rs with
                  | [] => None
                  | r :: _ => Some (data r)
                  end.
Proof.
  intros H. destruct rs as [| r rest]; [reflexivity |].
  inversion H as [| ? ? Hr _]; subst.
  unfold first_text. simpl. apply String.eqb_neq in Hr. rewrite Hr. reflexivity.
Qed.

Lemma read_from_bytes_outcome (cv : Cv2) (b : list byte) (rs : list QRResult) :
  read_from_bytes cv b = Ok rs -> exists f, snd (decode cv (Some f)) = Ok rs.
Proof.
  unfold read_from_bytes, rewrap. destruct b as [| x b]; [discriminate |].
  simpl. destruct (imdecode cv (x :: b)) as [[f |] | e]; simpl;
    [| discriminate | destruct e; discriminate].
  intros H. exists f.
  destruct (snd (decode cv (Some f))) as [rs' | [m | m]]; congruence.
Qed.

(** [decode_results] returns the text of the first payload [decode]
    returns, [None] when it returns none, and propagates its exception:
    since every payload is non-empty, the [filter(None, ...)] drops
    nothing. *)
Theorem decode_results_first_payload (cv : Cv2) (img : option Frame) :
  decode_results cv img =
  match snd (decode cv img) with
  | Ok [] => Ok None
  | Ok (r :: _) => Ok (Some (data r))
  | Raise e => Raise e
  end.
Proof.
  unfold decode_results.
  pose proof (decode_outcome_nonempty cv img) as H.
  destruct (snd (decode cv img)) as [rs | e]; simpl; [| reflexivity].
  rewrite (first_text_nonempty rs (H rs eq_refl)).
  destruct rs; reflexivity.
Qed.

(** [read_from_bytes_decoded] returns the text of the first payload
    [read_from_bytes] returns, [None] when it returns none, and
    propagates its exception (so an empty buffer raises the "no image
    data" error). *)
Theorem read_from_bytes_decoded_first_payload (cv : Cv2) (b : list byte) :
  read_from_bytes_decoded cv b =
  match read_from_bytes cv b with
  | Ok [] => Ok None
  | Ok (r :: _) => Ok (Some (data r))
  | Raise e => Raise e
  end /\
  read_from_bytes_decoded cv [] = Raise (QRDetectorError msg_no_image_data).
Proof.
  split; [| reflexivity].
  unfold read_from_bytes_decoded.
  pose proof (read_from_bytes_outcome cv b) as H.
  destruct (read_from_bytes cv b) as [rs | e]; simpl; [| reflexivity].
  destruct (H rs eq_refl) as [f Hf].
  rewrite (first_text_nonempty rs (decode_outcome_nonempty cv (Some f) rs Hf)).
  destruct rs; reflexivity.
Qed.

(** [decode] on [None] or on an image of size 0 evaluates no rotation
    variant and raises a [QRDetectorError] whose message is the
    invalid-image message wrapped once more by its own [except] clause. *)
Theorem decode_invalid_input (cv : Cv2) :
  decode cv None =
    ([], Raise (QRDetectorError (msg_decode_error_prefix ++ msg_invalid_image))) /\
  (forall f, frame_size f = 0 ->
     decode cv (Some f) =
     ([], Raise (QRDetectorError (msg_decode_error_prefix ++ msg_invalid_image)))).
Proof.
  split; [reflexivity |].
  intros f Hf. unfold decode. rewrite Hf. reflexivity.
Qed.

Lemma decode_invalid_input_witness :
  frame_size (mkFrame 0 4 3 []) = 0 /\
  decode demo_cv (Some (mkFrame 0 4 3 [])) =
    ([], Raise (QRDetectorError (msg_decode_error_prefix ++ msg_invalid_image))).
Proof.
  split; [reflexivity |].
  apply (proj2 (decode_invalid_input demo_cv)). reflexivity.
Defined.

(** [read_from_file]: a path that does not exist raises "file not found",
    an unparsable file raises "cannot read image file", a readable image
    is handed to [decode] whose outcome is returned unchanged, and a
    failure of [os.path.exists] or [cv2.imread] is re-raised as a
    [QRDetectorError] with the read-file prefix. *)
Theorem read_from_file_cases (cv : Cv2) (p : string) :
  (path_exists cv p = Ok false ->
     read_from_file cv p = Raise (QRDetectorError (msg_file_not_found p))) /\
  (path_exists cv p = Ok true -> imread cv p = Ok None ->
     read_from_file cv p = Raise (QRDetectorError (msg_cannot_read_image_file p))) /\
  (forall f, path_exists cv p = Ok true -> imread cv p = Ok (Some f) ->
     read_from_file cv p = snd (decode cv (Some f))) /\
  (forall m, path_exists cv p = Raise (ExternalError m) ->
     read_from_file cv p =
     Raise (QRDetectorError (msg_read_file_error_prefix ++ m))) /\
  (forall m, path_exists cv p = Ok true -> imread cv p = Raise (ExternalError m) ->
     read_from_file cv p =
     Raise (QRDetectorError (msg_read_file_error_prefix ++ m))).
Proof.
  unfold read_from_file.
  split; [| split; [| split; [| split]]].
  - intros H. rewrite H. reflexivity.
  - intros H1 H2. rewrite H1. simpl. rewrite H2. reflexivity.
  - intros f H1 H2. rewrite H1. simpl. rewrite H2. simpl.
    unfold decode.
    destruct (Nat.eqb (frame_size f) 0); [reflexivity |].
    destruct (decode_loop cv f rotation_angles []) as [tr [rs | e]]; reflexivity.
  - intros m H. rewrite H. reflexivity.
  - intros m H1 H2. rewrite H1. simpl. rewrite H2. reflexivity.
Qed.

Lemma read_from_file_cases_witness :
  path_exists demo_cv "qr.png" = Ok true /\
  imread demo_cv "qr.png" = Ok (Some (demo_frame 1)) /\
  read_from_file demo_cv "qr.png" = snd (decode demo_cv (Some (demo_frame 1))).
Proof.
  split; [reflexivity |]. split; [reflexivity |].
  apply (proj1 (proj2 (proj2 (read_from_file_cases demo_cv "qr.png"))));
    reflexivity.
Defined.

(** [read_from_bytes]: an exception of the codec on a non-empty buffer is
    re-raised as a [QRDetectorError] with the read-bytes prefix. *)
Theorem read_from_bytes_codec_failure (cv : Cv2) (b : list byte) (m : string) :
  b <> [] -> imdecode cv b = Raise (ExternalError m) ->
  read_from_bytes cv b = Raise (QRDetectorError (msg_read_bytes_error_prefix ++ m)).
Proof.
  intros Hb H. destruct b as [| x b]; [contradiction |].
  unfold read_from_bytes. simpl. rewrite H. reflexivity.
Qed.

Lemma read_from_bytes_codec_failure_witness :
  [x02] <> [] /\ imdecode demo_cv [x02] = Raise (ExternalError "imdecode failed") /\
  read_from_bytes demo_cv [x02] =
    Raise (QRDetectorError (msg_read_bytes_error_prefix ++ "imdecode failed")).
Proof.
  split; [discriminate |]. split; [reflexivity |].
  apply read_from_bytes_codec_failure; [discriminate | reflexivity].
Defined.

(** ** The live scan loop *)

Lemma process_results_confirmed_nonempty (l : option string) (c : nat)
    (rs : list QRResult) (s : string) :
  process_results l c rs = Confirmed s -> s <> "".
Proof.
  revert l c. induction rs as [| r rs IH]; intros l c H;
    cbn [process_results QRResult_decode] in H; [discriminate |].
  destruct (String.eqb (data r) "") eqn:E; [exact (IH l c H) |].
  destruct (update_candidate l c (data r)) as [l1 c1].
  destruct (Nat.leb 3 c1); [| exact (IH l1 c1 H)].
  inversion H; subst. apply String.eqb_neq. exact E.
Qed.

Lemma update_candidate_some (l : option string) (c : nat) (t : string) :
  fst (update_candidate l c t) = Some t /\ 1 <= snd (update_candidate l c t).
Proof.
  destruct l as [x |]; simpl; [| split; [reflexivity | lia]].
  destruct (String.eqb t x) eqn:E; simpl; [| split; [reflexivity | lia]].
  apply String.eqb_eq in E. subst. split; [reflexivity | lia].
Qed.

Lemma process_results_consistent (l : option string) (c : nat) (rs : list QRResult)
    (l' : option string) (c' : nat) :
  counter_consistent l c -> process_results l c rs = Tracking l' c' ->
  counter_consistent l' c'.
Proof.
  revert l c. induction rs as [| r rs IH]; intros l c Hc H;
    cbn [process_results QRResult_decode] in H.
  - inversion H; subst. exact Hc.
  - destruct (String.eqb (data r) ""); [exact (IH l c Hc H) |].
    pose proof (update_candidate_some l c (data r)) as [U1 U2].
    destruct (update_candidate l c (data r)) as [l1 c1]. simpl in U1, U2. subst l1.
    destruct (Nat.leb 3 c1) eqn:E; [discriminate |].
    apply Nat.leb_gt in E. apply (IH (Some (data r)) c1); [| exact H].
    split; [split; [lia | discriminate] | exact E].
Qed.

Lemma truthy_false (r : option (list QRResult)) :
  truthy r = false -> r = None \/ r = Some [].
Proof. destruct r as [[| x rs] |]; simpl; auto; discriminate. Qed.

Lemma run_layers_nothing (cv : Cv2) (layers : list (Layer * res Frame))
    (r : option (list QRResult)) :
  truthy r = false ->
  Forall (fun x => truthy (layer_found cv (snd x)) = false) layers ->
  truthy (snd (run_layers cv layers r)) = false.
Proof.
  intros Hr H. revert r Hr.
  induction H as [| [l b] rest Hx Hrest IH]; intros r Hr; simpl; [exact Hr |].
  rewrite Hr. pose proof (try_layer_nothing cv b r Hr Hx) as Hn.
  destruct (try_layer cv b r) as [tr r1]. simpl in Hn.
  destruct (run_layers cv rest r1) as [tr2 r2] eqn:R. simpl.
  pose proof (IH r1 Hn) as HR. rewrite R in HR. exact HR.
Qed.

(** A decoder that never reports a non-empty text makes [decode] return
    no payload or raise. *)
Lemma decode_silent (cv : Cv2) (img : Frame) :
  (forall f info, detectAndDecodeMulti cv f = Ok info -> results_of info = []) ->
  truthy (layer_found cv (Ok img)) = false.
Proof.
  intros Hsil. unfold layer_found.
  assert (L : forall angles,
            match snd (decode_loop cv img angles []) with
            | Ok rs => rs = []
            | Raise _ => True
            end).
  { induction angles as [| a rest IH]; simpl; [reflexivity |].
    destruct (variant_results cv img a) as [results | e] eqn:V; simpl; [| exact I].
    assert (Hr : results = []).
    { unfold variant_results in V.
      destruct (rotate_image cv img a); simpl in V; [| discriminate].
      destruct (preprocess_image cv a0); simpl in V; [| discriminate].
      destruct (detectAndDecodeMulti cv a1) eqn:D; simpl in V; [| discriminate].
      inversion V; subst. exact (Hsil _ _ D). }
    subst results. simpl.
    destruct (decode_loop cv img rest []) as [tr o]. exact IH. }
  destruct (Nat.eqb (frame_size img) 0) eqn:E.
  - unfold decode. rewrite E. reflexivity.
  - rewrite (decode_valid_frame cv img (proj1 (Nat.eqb_neq _ _) E)).
    specialize (L rotation_angles).
    destruct (decode_loop cv img rotation_angles []) as [tr [rs | e]];
      simpl in *; [subst; reflexivity | reflexivity].
Qed.

Lemma scan_attempt_outcome (cv : Cv2) (frame : Frame) (l : option string) (c : nat) :
  (forall s, snd (scan_attempt cv frame l c) = Confirmed s -> s <> "") /\
  (forall l' c', counter_consistent l c ->
     snd (scan_attempt cv frame l c) = Tracking l' c' -> counter_consistent l' c').
Proof.
  unfold scan_attempt.
  destruct (Nat.ltb 0 (frame_size (roi_slice cv frame))).
  - destruct (let! enhanced_roi := detailEnhance cv (roi_slice cv frame) in _)
      as [[[e g] b] | err]; cbn [snd].
    + destruct (run_layers cv (live_layers cv frame e g b) None) as [tr [rs |]];
        cbn [snd].
      * split; [apply process_results_confirmed_nonempty |].
        intros l' c' Hc H. exact (process_results_consistent l c rs l' c' Hc H).
      * split; [discriminate |]. intros l' c' Hc H. inversion H; subst. exact Hc.
    + split; [discriminate |]. intros l' c' Hc H. inversion H; subst. exact Hc.
  - split; [discriminate |]. intros l' c' Hc H. inversion H; subst. exact Hc.
Qed.

Lemma live_step_cases (cv : Cv2) (st : LiveState) (i : Input) :
  let '(attempt, tr, o) := live_step cv st i in
  (o = SStreamError -> in_frame i = None) /\
  (forall s, o = SConfirmed s -> attempt = true /\ s <> "") /\
  (o = SCancelled -> in_key_q i = true) /\
  (forall st', o = SContinue st' ->
     in_frame i <> None /\ in_key_q i = false /\
     (counter_consistent (last_detected_qr st) (confirmation_count st) ->
      counter_consistent (last_detected_qr st') (confirmation_count st')) /\
     (attempt = false ->
      last_scan_time st' = last_scan_time st /\
      last_detected_qr st' = last_detected_qr st /\
      confirmation_count st' = confirmation_count st)).
Proof.
  unfold live_step. destruct (in_frame i) as [frame |] eqn:Fr.
  - destruct (Z.ltb scan_interval (in_time i - last_scan_time st)
              && process_this_frame st) eqn:A.
    + pose proof (scan_attempt_outcome cv frame (last_detected_qr st)
                    (confirmation_count st)) as [S1 S2].
      destruct (scan_attempt cv frame (last_detected_qr st) (confirmation_count st))
        as [tr [d | l c]]; simpl in S1, S2.
      * split; [discriminate |]. split; [| split; [discriminate | intros st' H; discriminate]].
        intros s H. inversion H; subst. split; [reflexivity | exact (S1 s eq_refl)].
      * destruct (in_key_q i) eqn:K.
        -- split; [discriminate |]. split; [intros s H; discriminate |].
           split; [reflexivity | intros st' H; discriminate].
        -- split; [discriminate |]. split; [intros s H; discriminate |].
           split; [discriminate |].
           intros st' H. inversion H; subst. simpl.
           split; [discriminate |]. split; [reflexivity |].
           split; [intros Hc; exact (S2 l c Hc eq_refl) | discriminate].
    + destruct (in_key_q i) eqn:K.
      * split; [discriminate |]. split; [intros s H; discriminate |].
        split; [reflexivity | intros st' H; discriminate].
      * split; [discriminate |]. split; [intros s H; discriminate |].
        split; [discriminate |].
        intros st' H. inversion H; subst. simpl.
        split; [discriminate |]. split; [reflexivity |].
        split; [intros Hc; exact Hc | intros _; split; [| split]; reflexivity].
  - split; [reflexivity |]. split; [intros s H; discriminate |].
    split; [discriminate | intros st' H; discriminate].
Qed.

Lemma layer_found_silent (cv : Cv2) (b : res Frame) :
  (forall f info, detectAndDecodeMulti cv f = Ok info -> results_of info = []) ->
  truthy (layer_found cv b) = false.
Proof.
  intros Hsil. destruct b as [img | e]; [exact (decode_silent cv img Hsil) | reflexivity].
Qed.

(** A scan attempt leaves the candidate and the counter as they were when
    the ROI is empty (and then calls no decoder), when enhancing the ROI
    raises (idem), and when the decoder never reports a non-empty text on
    any image. *)
Theorem scan_attempt_untouched (cv : Cv2) (frame : Frame) (l : option string) (c : nat) :
  (frame_size (roi_slice cv frame) = 0 -> scan_attempt cv frame l c = ([], Tracking l c)) /\
  (forall e, detailEnhance cv (roi_slice cv frame) = Raise e ->
     scan_attempt cv frame l c = ([], Tracking l c)) /\
  ((forall f info, detectAndDecodeMulti cv f = Ok info -> results_of info = []) ->
     snd (scan_attempt cv frame l c) = Tracking l c).
Proof.
  unfold scan_attempt. split; [| split].
  - intros H. rewrite H. reflexivity.
  - intros e H. destruct (Nat.ltb 0 (frame_size (roi_slice cv frame))); [| reflexivity].
    rewrite H. reflexivity.
  - intros Hsil. destruct (Nat.ltb 0 (frame_size (roi_slice cv frame))); [| reflexivity].
    destruct (let! enhanced_roi := detailEnhance cv (roi_slice cv frame) in _)
      as [[[e g] b] | err]; cbn [snd]; [| reflexivity].
    assert (HN : truthy (snd (run_layers cv (live_layers cv frame e g b) None)) = false).
    { apply run_layers_nothing; [reflexivity |].
      repeat constructor; apply layer_found_silent; exact Hsil. }
    destruct (run_layers cv (live_layers cv frame e g b) None) as [tr r]. cbn [snd] in *.
    destruct (truthy_false r HN) as [-> | ->]; reflexivity.
Qed.

Lemma scan_attempt_untouched_witness :
  frame_size (roi_slice demo_cv (mkFrame 0 4 3 [])) = 0 /\
  scan_attempt demo_cv (mkFrame 0 4 3 []) (Some "A") 2 = ([], Tracking (Some "A") 2).
Proof.
  split; [reflexivity |].
  apply (proj1 (scan_attempt_untouched demo_cv (mkFrame 0 4 3 []) (Some "A") 2)).
  reflexivity.
Defined.

(** An iteration that does not enter the throttled block never confirms,
    and if the loop goes on it keeps the last scan time, the candidate and
    the counter. *)
Theorem live_step_without_attempt (cv : Cv2) (st : LiveState) (i : Input) :
  fst (fst (live_step cv st i)) = false ->
  (forall s, snd (live_step cv st i) <> SConfirmed s) /\
  (forall st', snd (live_step cv st i) = SContinue st' ->
     last_scan_time st' = last_scan_time st /\
     last_detected_qr st' = last_detected_qr st /\
     confirmation_count st' = confirmation_count st).
Proof.
  pose proof (live_step_cases cv st i) as C.
  destruct (live_step cv st i) as [[a tr] o]. cbn [fst snd]. intros Ha. subst a.
  destruct C as (_ & C2 & _ & C4). split.
  - intros s H. destruct (C2 s H) as [H' _]. discriminate.
  - intros st' H. exact (proj2 (proj2 (proj2 (C4 st' H))) eq_refl).
Qed.

Lemma live_step_without_attempt_witness :
  fst (fst (live_step demo_cv (init_state 0) (mkInput 1000 (Some (demo_frame 1)) false)))
    = false /\
  forall s, snd (live_step demo_cv (init_state 0) (mkInput 1000 (Some (demo_frame 1)) false))
              <> SConfirmed s.
Proof.
  assert (H : fst (fst (live_step demo_cv (init_state 0)
                          (mkInput 1000 (Some (demo_frame 1)) false))) = false)
    by reflexivity.
  split; [exact H |].
  exact (proj1 (live_step_without_attempt demo_cv (init_state 0) _ H)).
Defined.

(** How the loop ends: it is still running only if every frame was read
    and 'q' was never pressed; it stops on a stream error only at a
    missing frame, and is cancelled only by a 'q' key. *)
Theorem run_live_endings (cv : Cv2) (st : LiveState) (inputs : list Input) :
  (forall n st', run_live cv st inputs = (n, LRunning st') ->
     Forall (fun i => in_frame i <> None /\ in_key_q i = false) inputs) /\
  (forall n, run_live cv st inputs = (n, LStreamError) ->
     Exists (fun i => in_frame i = None) inputs) /\
  (forall n, run_live cv st inputs = (n, LCancelled) ->
     Exists (fun i => in_key_q i = true) inputs).
Proof.
  revert st. induction inputs as [| i rest IH]; intros st; cbn [run_live].
  - split; [intros; constructor |].
    split; intros n H; discriminate.
  - pose proof (live_step_cases cv st i) as C.
    destruct (live_step cv st i) as [[a tr] o].
    destruct C as (C1 & C2 & C3 & C4).
    destruct o as [d | | | st'].
    + split; [intros n st'' H; discriminate |].
      split; intros n H; discriminate.
    + split; [intros n st'' H; discriminate |].
      split; [intros n _; left; exact (C1 eq_refl) | intros n H; discriminate].
    + split; [intros n st'' H; discriminate |].
      split; [intros n H; discriminate | intros n _; left; exact (C3 eq_refl)].
    + destruct (C4 st' eq_refl) as (Hf & Hk & _).
      destruct (IH st') as (I1 & I2 & I3).
      destruct (run_live cv st' rest) as [m fin].
      split; [| split].
      * intros n st'' H. inversion H; subst.
        constructor; [split; assumption | exact (I1 m st'' eq_refl)].
      * intros n H. inversion H; subst. right. exact (I2 m eq_refl).
      * intros n H. inversion H; subst. right. exact (I3 m eq_refl).
Qed.

(** The running example: after the first two frames of the alternating
    stream the loop runs with candidate "A" counted once. *)
Lemma run_live_endings_witness :
  run_live demo_cv (init_state 0) (firstn 2 alternating_stream) =
    (1, LRunning (mkLiveState 200000 (Some "A") 1 true)) /\
  Forall (fun i => in_frame i <> None /\ in_key_q i = false)
    (firstn 2 alternating_stream).
Proof.
  assert (H : run_live demo_cv (init_state 0) (firstn 2 alternating_stream) =
                (1, LRunning (mkLiveState 200000 (Some "A") 1 true)))
    by (vm_compute; reflexivity).
  split; [exact H |].
  exact (proj1 (run_live_endings demo_cv (init_state 0) _) _ _ H).
Defined.

(** A text the loop confirms is non-empty, and confirming takes at least
    one pass through the throttled block. *)
Theorem run_live_confirmed (cv : Cv2) (st : LiveState) (inputs : list Input)
    (n : nat) (s : string) :
  run_live cv st inputs = (n, LConfirmed s) -> s <> "" /\ 1 <= n.
Proof.
  revert st n. induction inputs as [| i rest IH]; intros st n H; cbn [run_live] in H;
    [discriminate |].
  pose proof (live_step_cases cv st i) as C.
  destruct (live_step cv st i) as [[a tr] o].
  destruct C as (_ & C2 & _ & _).
  destruct o as [d | | | st'].
  - inversion H; subst. destruct (C2 s eq_refl) as [-> Hs]. split; [exact Hs | lia].
  - discriminate.
  - discriminate.
  - destruct (run_live cv st' rest) as [m fin] eqn:R. inversion H; subst.
    destruct (IH st' m R) as [Hs Hm]. split; [exact Hs | lia].
Qed.

Lemma run_live_confirmed_witness :
  run_live demo_cv (init_state 0) alternating_stream = (3, LConfirmed "A") /\
  "A" <> "" /\ 1 <= 3.
Proof.
  assert (H : run_live demo_cv (init_state 0) alternating_stream = (3, LConfirmed "A"))
    by (vm_compute; reflexivity).
  split; [exact H |].
  exact (run_live_confirmed demo_cv (init_state 0) alternating_stream 3 "A" H).
Defined.

(** While the loop runs, the counter is 0 exactly when no candidate is
    tracked, and it stays below 3 (it starts so with [None] and 0). *)
Theorem run_live_counter_consistent (cv : Cv2) (st : LiveState) (inputs : list Input)
    (n : nat) (st' : LiveState) :
  counter_consistent (last_detected_qr st) (confirmation_count st) ->
  run_live cv st inputs = (n, LRunning st') ->
  counter_consistent (last_detected_qr st') (confirmation_count st').
Proof.
  revert st n. induction inputs as [| i rest IH]; intros st n Hc H; cbn [run_live] in H.
  - inversion H; subst. exact Hc.
  - pose proof (live_step_cases cv st i) as C.
    destruct (live_step cv st i) as [[a tr] o].
    destruct C as (_ & _ & _ & C4).
    destruct o as [d | | | st1]; try discriminate.
    destruct (C4 st1 eq_refl) as (_ & _ & Hk & _).
    destruct (run_live cv st1 rest) as [m fin] eqn:R. inversion H; subst.
    exact (IH st1 m (Hk Hc) R).
Qed.

Lemma run_live_counter_consistent_witness :
  counter_consistent (last_detected_qr (init_state 0)) (confirmation_count (init_state 0)) /\
  run_live demo_cv (init_state 0) (firstn 2 alternating_stream) =
    (1, LRunning (mkLiveState 200000 (Some "A") 1 true)) /\
  counter_consistent (Some "A") 1.
Proof.
  assert (H0 : counter_consistent (last_detected_qr (init_state 0))
                 (confirmation_count (init_state 0)))
    by (split; [split; reflexivity | simpl; lia]).
  assert (H : run_live demo_cv (init_state 0) (firstn 2 alternating_stream) =
                (1, LRunning (mkLiveState 200000 (Some "A") 1 true)))
    by (vm_compute; reflexivity).
  split; [exact H0 |]. split; [exact H |].
  exact (run_live_counter_consistent demo_cv (init_state 0) _ 1 _ H0 H).
Defined.

(** The alternation flag flips on every iteration: after a run that is
    still going, it equals the initial flag flipped once per frame. *)
Theorem run_live_flag_parity (cv : Cv2) (st : LiveState) (inputs : list Input)
    (n : nat) (st' : LiveState) :
  run_live cv st inputs = (n, LRunning st') ->
  process_this_frame st' = xorb (process_this_frame st) (Nat.odd (List.length inputs)).
Proof.
  revert st n. induction inputs as [| i rest IH]; intros st n H; cbn [run_live] in H.
  - inversion H; subst. destruct (process_this_frame st'); reflexivity.
  - pose proof (live_step_facts cv st i) as F.
    destruct (live_step cv st i) as [[a tr] o].
    destruct F as (_ & _ & F3).
    destruct o as [d | | | st1]; try discriminate.
    destruct (F3 st1 eq_refl) as [_ Hflag].
    destruct (run_live cv st1 rest) as [m fin] eqn:R. inversion H; subst.
    rewrite (IH st1 m R), Hflag. cbn [List.length].
    rewrite Nat.odd_succ, <- Nat.negb_odd.
    destruct (process_this_frame st), (Nat.odd (List.length rest)); reflexivity.
Qed.

Lemma run_live_flag_parity_witness :
  run_live demo_cv (init_state 0) (firstn 2 alternating_stream) =
    (1, LRunning (mkLiveState 200000 (Some "A") 1 true)) /\
  process_this_frame (mkLiveState 200000 (Some "A") 1 true) =
    xorb (process_this_frame (init_state 0))
      (Nat.odd (List.length (firstn 2 alternating_stream))).
Proof.
  assert (H : run_live demo_cv (init_state 0) (firstn 2 alternating_stream) =
                (1, LRunning (mkLiveState 200000 (Some "A") 1 true)))
    by (vm_compute; reflexivity).
  split; [exact H |].
  exact (run_live_flag_parity demo_cv (init_state 0) _ 1 _ H).
Defined.

(** No two consecutive frames are both scanned: over any run of the loop
    the throttled block is entered at most half the frames (rounded up
    when the flag starts set). *)
Theorem run_live_attempts_alternate (cv : Cv2) (st : LiveState) (inputs : list Input) :
  2 * fst (run_live cv st inputs) <=
  List.length inputs + (if process_this_frame st then 1 else 0).
Proof.
  revert st. induction inputs as [| i rest IH]; intros st; cbn [run_live List.length];
    [simpl; lia |].
  pose proof (live_step_facts cv st i) as F.
  destruct (live_step cv st i) as [[a tr] o].
  destruct F as (F1 & _ & F3).
  assert (Ha : a = true -> process_this_frame st = true)
    by (intros Ha; exact (proj2 (F1 Ha))).
  destruct o as [d | | | st1];
    try (destruct a; [rewrite (Ha eq_refl) |]; simpl; lia).
  destruct (F3 st1 eq_refl) as [_ Hflag].
  specialize (IH st1). rewrite Hflag in IH.
  destruct (run_live cv st1 rest) as [m fin]. cbn [fst] in *.
  destruct a; [rewrite (Ha eq_refl) in * |]; destruct (process_this_frame st); simpl in *; lia.
Qed.
